(** * react-undoable: the undo/redo history of [Undoable<T>]

    A shallow embedding of [src/index.tsx].  The component keeps three slots,
    [currentState], [previousState] and [nextState], and exposes five methods
    that call [this.setState]; a static [getDerivedStateFromProps] seeds
    [currentState] from the [initialState] prop.

    Conventions of the embedding:
    - a JavaScript value of type [T | undefined] is an [option T]; [None] is
      [undefined];
    - an array is a [list], index 0 first; [[...xs, x]] is [xs ++ [x]];
    - [this.setState(partial, callback)] is data: the method returns the call
      it makes, and [commit] merges the partial state as React does;
    - React applies each [setState] before the next method runs (the methods
      are called one at a time, as in the repository's tests), and calls
      [getDerivedStateFromProps] before every render. *)

From Stdlib Require Import String ZArith.
From Stdlib Require Import List Bool Arith Lia Permutation.
Import ListNotations.

Set Implicit Arguments.
Set Warnings "-register-all".

(** ** JavaScript truthiness *)

(** [ToBoolean] of a value that is not [undefined]. *)
Class ToBoolean (T : Type) := to_boolean : T -> bool.

(** The test [if (v && ...)] on a value of type [T | undefined]:
    [undefined] is falsy. *)
Definition truthy {T} `{ToBoolean T} (v : option T) : bool :=
  match v with
  | None => false
  | Some x => to_boolean x
  end.

(** [v === undefined]. *)
Definition is_undefined {T} (v : option T) : bool :=
  match v with
  | None => true
  | Some _ => false
  end.

(** The values the examples use: [null], booleans, integer-valued numbers,
    strings and object literals, with ECMAScript's [ToBoolean]. *)
Inductive JsValue : Type :=
| JsNull
| JsBoolean (b : bool)
| JsNumber (n : Z)
| JsString (s : string)
| JsObject (fields : list (string * JsValue)).

#[export] Instance JsValue_ToBoolean : ToBoolean JsValue :=
  fun v =>
    match v with
    | JsNull => false
    | JsBoolean b => b
    | JsNumber n => negb (n =? 0)%Z
    | JsString s => negb (String.eqb s EmptyString)
    | JsObject _ => true
    end.

(** [defaultState] of the test suite. *)
Definition defaultState : JsValue :=
  JsObject [("microphone"%string, JsString "check");
            ("num"%string, JsNumber 2);
            ("test"%string, JsBoolean true)].

(** [{ ...defaultState, num: 10, test: false }], the state the tests push. *)
Definition changedState : JsValue :=
  JsObject [("microphone"%string, JsString "check");
            ("num"%string, JsNumber 10);
            ("test"%string, JsBoolean false)].

(** [{ count: n }], the state of the README's counter. *)
Definition counter (n : Z) : JsValue := JsObject [("count"%string, JsNumber n)].

(** ** Arrays *)

(** [Array.prototype.pop]: the array without its last element, and that
    element ([undefined] for an empty array). *)
Definition pop {T} (xs : list (option T)) : list (option T) * option T :=
  (removelast xs, last xs None).

Section Undoable.

Context {T : Type} {T_ToBoolean : ToBoolean T}.

(** The type of the optional completion callbacks; they are only passed on
    to [setState]. *)
Variable Callback : Type.

(** ** Props and state *)

(** [IUndoableProps<T>] (the [children] render function plays no part in the
    history). *)
Record IUndoableProps : Type := {
  initialState : option T
}.

(** [IUndoableState<T>]. *)
Record IUndoableState : Type := {
  currentState : option T;
  previousState : list (option T);
  nextState : list (option T)
}.

(** The argument of [setState]: the fields that the object literal names. *)
Record Partial : Type := {
  set_currentState : option (option T);
  set_previousState : option (list (option T));
  set_nextState : option (list (option T))
}.

(** What a method does with [this.setState]. *)
Inductive SetState : Type :=
| NoSetState
| SetStateCall (partial : Partial) (callback : option Callback).

(** A method call: the value it returns and its [setState]. *)
Record Outcome : Type := {
  returned : option T;
  effect : SetState
}.

(** [readonly state = { currentState: undefined, previousState: [],
    nextState: [] }] *)
Definition state : IUndoableState :=
  {| currentState := None; previousState := []; nextState := [] |}.

(** React's shallow merge of a partial state. *)
Definition merge (st : IUndoableState) (p : Partial) : IUndoableState :=
  {| currentState :=
       match set_currentState p with Some v => v | None => currentState st end;
     previousState :=
       match set_previousState p with Some v => v | None => previousState st end;
     nextState :=
       match set_nextState p with Some v => v | None => nextState st end |}.

(** The state after a method call, before the next derivation. *)
Definition commit (st : IUndoableState) (o : Outcome) : IUndoableState :=
  match effect o with
  | NoSetState => st
  | SetStateCall p _ => merge st p
  end.

(** ** The component *)

(** [static getDerivedStateFromProps(nextProps, nextState)]; [None] is the
    [null] it returns when there is nothing to derive. *)
Definition getDerivedStateFromProps
    (nextProps : IUndoableProps) (nextState : IUndoableState) : option Partial :=
  if truthy (initialState nextProps) && is_undefined (currentState nextState)
  then Some {| set_currentState := Some (initialState nextProps);
               set_previousState := None;
               set_nextState := None |}
  else None.

(** [undo = () => ...] *)
Definition undo (st : IUndoableState) : Outcome :=
  if negb (length (previousState st) =? 0) then
    let '(nextPreviousState, nextCurrentState) := pop (previousState st) in
    let nextNextState := currentState st in
    {| returned := nextCurrentState;
       effect := SetStateCall
         {| set_currentState := Some nextCurrentState;
            set_nextState := Some (nextState st ++ [nextNextState]);
            set_previousState := Some nextPreviousState |}
         None |}
  else
    {| returned := None; effect := NoSetState |}.

(** [redo = () => ...] *)
Definition redo (st : IUndoableState) : Outcome :=
  if negb (length (nextState st) =? 0) then
    let '(nextNextState, nextCurrentState) := pop (nextState st) in
    let nextPreviousState := currentState st in
    {| returned := nextCurrentState;
       effect := SetStateCall
         {| set_currentState := Some nextCurrentState;
            set_nextState := Some nextNextState;
            set_previousState := Some (previousState st ++ [nextPreviousState]) |}
         None |}
  else
    {| returned := None; effect := NoSetState |}.

(** [pushState = (state, callback?) => ...] *)
Definition pushState (st : IUndoableState)
    (state : option T) (callback : option Callback) : Outcome :=
  {| returned := None;
     effect := SetStateCall
       {| set_currentState := Some state;
          set_nextState := Some [];
          set_previousState := Some (previousState st ++ [currentState st]) |}
       callback |}.

(** [resetState = (state?, callback?) => ...]; the interface declares
    [state?: T], so a call without a value passes [undefined]. *)
Definition resetState (st : IUndoableState)
    (state : option T) (callback : option Callback) : Outcome :=
  {| returned := None;
     effect := SetStateCall
       {| set_currentState := Some state;
          set_nextState := Some [];
          set_previousState := Some [] |}
       callback |}.

(** [updateState = (state, callback?) => ...] *)
Definition updateState (st : IUndoableState)
    (state : option T) (callback : option Callback) : Outcome :=
  {| returned := None;
     effect := SetStateCall
       {| set_currentState := Some state;
          set_nextState := None;
          set_previousState := None |}
       callback |}.

(** ** A mounted component *)

(** The state React renders: the derived partial state, when there is one,
    is merged into the state. *)
Definition derive (props : IUndoableProps) (st : IUndoableState) : IUndoableState :=
  match getDerivedStateFromProps props st with
  | Some p => merge st p
  | None => st
  end.

(** Whether the seeding rule fires on a derivation. *)
Definition adopts (props : IUndoableProps) (st : IUndoableState) : bool :=
  match getDerivedStateFromProps props st with
  | Some _ => true
  | None => false
  end.

(** A component instance; [adoptions] counts how often the seeding rule has
    fired on it (it is not a field of the source). *)
Record Instance : Type := {
  props : IUndoableProps;
  this_state : IUndoableState;
  adoptions : nat
}.

(** A render with props [p] and pending state [st]. *)
Definition render (p : IUndoableProps) (st : IUndoableState) (n : nat) : Instance :=
  {| props := p;
     this_state := derive p st;
     adoptions := if adopts p st then S n else n |}.

Definition mount (p : IUndoableProps) : Instance := render p state 0.

(** The calls a consumer can make on [IUndoableMethods<T>]. *)
Inductive Call : Type :=
| CallUndo
| CallRedo
| CallPushState (state : option T) (callback : option Callback)
| CallResetState (state : option T) (callback : option Callback)
| CallUpdateState (state : option T) (callback : option Callback).

Definition invoke (c : Call) (st : IUndoableState) : Outcome :=
  match c with
  | CallUndo => undo st
  | CallRedo => redo st
  | CallPushState v cb => pushState st v cb
  | CallResetState v cb => resetState st v cb
  | CallUpdateState v cb => updateState st v cb
  end.

(** What happens to an instance: a method is called, or the parent renders
    it with new props. *)
Inductive Event : Type :=
| Invoke (c : Call)
| ReceiveProps (p : IUndoableProps).

(** A method that calls [setState] causes a render; one that does not
    leaves the instance alone. *)
Definition handle (i : Instance) (e : Event) : Instance :=
  match e with
  | Invoke c =>
      match effect (invoke c (this_state i)) with
      | NoSetState => i
      | SetStateCall p _ => render (props i) (merge (this_state i) p) (adoptions i)
      end
  | ReceiveProps p => render p (this_state i) (adoptions i)
  end.

(** The instance after mounting with props [p] and handling [es] in order. *)
Definition lifetime (p : IUndoableProps) (es : list Event) : Instance :=
  fold_left handle es (mount p).

(** The recorded values from the oldest to the newest. *)
Definition timeline (st : IUndoableState) : list (option T) :=
  previousState st ++ [currentState st] ++ rev (nextState st).

(** No slot of the history holds [undefined]. *)
Definition defined_history (st : IUndoableState) : Prop :=
  currentState st <> None /\
  Forall (fun v => v <> None) (previousState st) /\
  Forall (fun v => v <> None) (nextState st).

(** A method call that passes a value passes one that is not [undefined]. *)
Definition defined_call (c : Call) : Prop :=
  match c with
  | CallUndo | CallRedo => True
  | CallPushState v _ | CallResetState v _ | CallUpdateState v _ => v <> None
  end.

Definition defined_event (e : Event) : Prop :=
  match e with
  | Invoke c => defined_call c
  | ReceiveProps _ => True
  end.

(** The history right after the value [a] was adopted. *)
Definition seeded (a : T) : IUndoableState :=
  {| currentState := Some a; previousState := []; nextState := [] |}.

(** At rest, a component whose [initialState] prop is truthy holds no
    [undefined] in its history: each render seeds an undefined
    [currentState], and the stacks only receive former current values. *)
Definition stable (i : Instance) : Prop :=
  truthy (initialState (props i)) = true -> defined_history (this_state i).

Definition is_pushState (e : Event) : Prop :=
  match e with
  | Invoke (CallPushState _ _) => True
  | _ => False
  end.

Definition is_undo_or_redo (e : Event) : Prop :=
  match e with
  | Invoke CallUndo | Invoke CallRedo => True
  | _ => False
  end.

Definition is_invoke (e : Event) : Prop :=
  match e with
  | Invoke _ => True
  | ReceiveProps _ => False
  end.

(** ** Runs of method calls *)

(** The state committed by the method calls [cs], made one after the
    other, with no derivation in between. *)
Definition commits (cs : list Call) (st : IUndoableState) : IUndoableState :=
  fold_left (fun s c => commit s (invoke c s)) cs st.

(** [n] calls of [undo()] in a row, and of [redo()]. *)
Definition undos (n : nat) (st : IUndoableState) : IUndoableState :=
  Nat.iter n (fun s => commit s (undo s)) st.

Definition redos (n : nat) (st : IUndoableState) : IUndoableState :=
  Nat.iter n (fun s => commit s (redo s)) st.


(** The index of [currentState] in the timeline. *)
Definition cursor (st : IUndoableState) : nat := length (previousState st).

(** The history whose timeline is [tl] and whose current value is the one
    at index [k]. *)
Definition at_cursor (tl : list (option T)) (k : nat) : IUndoableState :=
  {| currentState := nth k tl None;
     previousState := firstn k tl;
     nextState := rev (skipn (S k) tl) |}.

(** The call passes [undefined] as the new current value. *)
Definition passes_undefined (c : Call) : bool :=
  match c with
  | CallUndo | CallRedo => false
  | CallPushState v _ | CallResetState v _ | CallUpdateState v _ => is_undefined v
  end.

(** ** Arrays: facts *)

Lemma pop_snoc (xs : list (option T)) (x : option T) :
  pop (xs ++ [x]) = (xs, x).
Proof.
  unfold pop. now rewrite removelast_last, last_last.
Qed.

Lemma snoc_length_nonzero (xs : list (option T)) (x : option T) :
  negb (length (xs ++ [x]) =? 0) = true.
Proof.
  rewrite length_app, Nat.add_comm. reflexivity.
Qed.

Lemma nonempty_snoc (xs : list (option T)) :
  xs <> [] -> exists ys y, xs = ys ++ [y].
Proof.
  intros Hne. destruct (exists_last Hne) as [ys [y Hxs]]. eauto.
Qed.

(** ** The methods, case by case *)

Lemma undo_snoc (st : IUndoableState) p x :
  previousState st = p ++ [x] ->
  undo st =
    {| returned := x;
       effect := SetStateCall
         {| set_currentState := Some x;
            set_nextState := Some (nextState st ++ [currentState st]);
            set_previousState := Some p |}
         None |}.
Proof.
  intros Hp. unfold undo. now rewrite Hp, snoc_length_nonzero, pop_snoc.
Qed.

Lemma redo_snoc (st : IUndoableState) f y :
  nextState st = f ++ [y] ->
  redo st =
    {| returned := y;
       effect := SetStateCall
         {| set_currentState := Some y;
            set_nextState := Some f;
            set_previousState := Some (previousState st ++ [currentState st]) |}
         None |}.
Proof.
  intros Hf. unfold redo. now rewrite Hf, snoc_length_nonzero, pop_snoc.
Qed.

Lemma undo_nil (st : IUndoableState) :
  previousState st = [] -> undo st = {| returned := None; effect := NoSetState |}.
Proof.
  intros Hp. unfold undo. now rewrite Hp.
Qed.

Lemma redo_nil (st : IUndoableState) :
  nextState st = [] -> redo st = {| returned := None; effect := NoSetState |}.
Proof.
  intros Hf. unfold redo. now rewrite Hf.
Qed.

Lemma commit_undo_snoc (st : IUndoableState) p x :
  previousState st = p ++ [x] ->
  commit st (undo st) =
    {| currentState := x;
       previousState := p;
       nextState := nextState st ++ [currentState st] |}.
Proof.
  intros Hp. now rewrite (undo_snoc st p x Hp).
Qed.

Lemma commit_redo_snoc (st : IUndoableState) f y :
  nextState st = f ++ [y] ->
  commit st (redo st) =
    {| currentState := y;
       previousState := previousState st ++ [currentState st];
       nextState := f |}.
Proof.
  intros Hf. now rewrite (redo_snoc st f y Hf).
Qed.

(** ** The seeding rule, case by case *)

Lemma derive_defined (p : IUndoableProps) (st : IUndoableState) :
  currentState st <> None -> derive p st = st /\ adopts p st = false.
Proof.
  intros Hc. unfold derive, adopts, getDerivedStateFromProps.
  destruct (currentState st); [ | contradiction ].
  cbn. rewrite andb_false_r. now split.
Qed.

Lemma derive_falsy (p : IUndoableProps) (st : IUndoableState) :
  truthy (initialState p) = false -> derive p st = st /\ adopts p st = false.
Proof.
  intros Hp. unfold derive, adopts, getDerivedStateFromProps.
  rewrite Hp. now split.
Qed.

Lemma derive_seeds (p : IUndoableProps) (st : IUndoableState) :
  truthy (initialState p) = true ->
  currentState st = None ->
  derive p st =
    {| currentState := initialState p;
       previousState := previousState st;
       nextState := nextState st |}
  /\ adopts p st = true.
Proof.
  intros Hp Hc. unfold derive, adopts, getDerivedStateFromProps.
  rewrite Hp, Hc. now split.
Qed.

Lemma truthy_defined (v : option T) : truthy v = true -> v <> None.
Proof.
  destruct v; [ discriminate | intros Hv; discriminate Hv ].
Qed.

(** ** The five operations *)

(** C3: on every state and for every value, [pushState(value)] commits a
    state whose [previousState] is the old one with the old [currentState]
    appended at the end, whose [currentState] is [value], and whose
    [nextState] is empty, whatever [nextState] held before. *)
Theorem pushState_appends_and_clears
    (st : IUndoableState) (value : option T) (callback : option Callback) :
  commit st (pushState st value callback) =
    {| currentState := value;
       previousState := previousState st ++ [currentState st];
       nextState := [] |}
  /\ last (previousState (commit st (pushState st value callback))) None
     = currentState st
  /\ length (previousState (commit st (pushState st value callback)))
     = S (length (previousState st))
  /\ length (nextState (commit st (pushState st value callback))) = 0.
Proof.
  cbn. rewrite last_last, length_app, Nat.add_comm. repeat split.
Qed.

(** C6: on every state and for every value, [updateState(value)] commits a
    state whose [currentState] is [value] and whose [previousState] and
    [nextState] are the ones before the call. *)
Theorem updateState_keeps_stacks
    (st : IUndoableState) (value : option T) (callback : option Callback) :
  commit st (updateState st value callback) =
    {| currentState := value;
       previousState := previousState st;
       nextState := nextState st |}
  /\ length (previousState (commit st (updateState st value callback)))
     = length (previousState st)
  /\ length (nextState (commit st (updateState st value callback)))
     = length (nextState st).
Proof.
  cbn. repeat split.
Qed.

(** C7: on every state, however long its two stacks are, [resetState(value)]
    commits a state whose [currentState] is [value] and whose [previousState]
    and [nextState] are empty. *)
Theorem resetState_clears_history
    (st : IUndoableState) (value : option T) (callback : option Callback) :
  commit st (resetState st value callback) =
    {| currentState := value; previousState := []; nextState := [] |}
  /\ length (previousState (commit st (resetState st value callback))) = 0
  /\ length (nextState (commit st (resetState st value callback))) = 0.
Proof.
  cbn. repeat split.
Qed.

(** C4: when [previousState] ends with [x], [undo()] returns [x] and [x] is
    the [currentState] it commits; when [nextState] ends with [y], [redo()]
    returns [y] and [y] is the [currentState] it commits. *)
Theorem undo_redo_return_restored (st : IUndoableState) :
  (forall p x, previousState st = p ++ [x] ->
     returned (undo st) = x /\
     currentState (commit st (undo st)) = returned (undo st))
  /\
  (forall f y, nextState st = f ++ [y] ->
     returned (redo st) = y /\
     currentState (commit st (redo st)) = returned (redo st)).
Proof.
  split.
  - intros p x Hp. rewrite (undo_snoc st p x Hp). now split.
  - intros f y Hf. rewrite (redo_snoc st f y Hf). now split.
Qed.

(** C5: with an empty [previousState], [undo()] returns [undefined], does
    not call [setState] (so nothing is committed, rendered or notified) and
    leaves the instance as it was; likewise [redo()] with an empty
    [nextState]. *)
Theorem undo_redo_noop_at_boundary (i : Instance) :
  (previousState (this_state i) = [] ->
     returned (undo (this_state i)) = None /\
     effect (undo (this_state i)) = NoSetState /\
     commit (this_state i) (undo (this_state i)) = this_state i /\
     handle i (Invoke CallUndo) = i)
  /\
  (nextState (this_state i) = [] ->
     returned (redo (this_state i)) = None /\
     effect (redo (this_state i)) = NoSetState /\
     commit (this_state i) (redo (this_state i)) = this_state i /\
     handle i (Invoke CallRedo) = i).
Proof.
  split; intros Hnil.
  - unfold handle, invoke, commit. rewrite (undo_nil _ Hnil). now cbn.
  - unfold handle, invoke, commit. rewrite (redo_nil _ Hnil). now cbn.
Qed.

(** ** The timeline *)

Lemma nil_or_snoc (xs : list (option T)) :
  xs = [] \/ exists ys y, xs = ys ++ [y].
Proof.
  destruct xs as [ | x xs ]; [ now left | right ].
  apply nonempty_snoc. discriminate.
Qed.

Lemma timeline_undo (st : IUndoableState) :
  timeline (commit st (undo st)) = timeline st.
Proof.
  destruct (nil_or_snoc (previousState st)) as [Hp | (p & x & Hp)].
  - now rewrite (undo_nil st Hp).
  - rewrite (commit_undo_snoc st p x Hp). unfold timeline. cbn.
    rewrite Hp, rev_app_distr, <- app_assoc. reflexivity.
Qed.

Lemma timeline_redo (st : IUndoableState) :
  timeline (commit st (redo st)) = timeline st.
Proof.
  destruct (nil_or_snoc (nextState st)) as [Hf | (f & y & Hf)].
  - now rewrite (redo_nil st Hf).
  - rewrite (commit_redo_snoc st f y Hf). unfold timeline. cbn.
    rewrite Hf, rev_app_distr, <- app_assoc. reflexivity.
Qed.

Lemma timeline_length (st : IUndoableState) :
  length (timeline st) = S (length (previousState st) + length (nextState st)).
Proof.
  unfold timeline. rewrite !length_app, length_rev. cbn. lia.
Qed.

Lemma timeline_permutation (st : IUndoableState) :
  Permutation (timeline st)
              (currentState st :: previousState st ++ nextState st).
Proof.
  unfold timeline. cbn.
  rewrite <- Permutation_middle. constructor.
  apply Permutation_app_head. symmetry. apply Permutation_rev.
Qed.

(** C9: [undo()] and [redo()] keep the sequence
    [previousState ++ [currentState] ++ reverse(nextState)]; an undo that has
    something to undo moves the last element of [previousState] into
    [currentState] and the old [currentState] to the end of [nextState], a
    redo does the mirror move; hence the two lengths keep their sum and the
    recorded values are the same ones, each as often as before. *)
Theorem undo_redo_preserve_timeline (st : IUndoableState) :
  (timeline (commit st (undo st)) = timeline st /\
   timeline (commit st (redo st)) = timeline st)
  /\
  (forall p x, previousState st = p ++ [x] ->
     commit st (undo st) =
       {| currentState := x;
          previousState := p;
          nextState := nextState st ++ [currentState st] |})
  /\
  (forall f y, nextState st = f ++ [y] ->
     commit st (redo st) =
       {| currentState := y;
          previousState := previousState st ++ [currentState st];
          nextState := f |})
  /\
  (length (previousState (commit st (undo st)))
     + length (nextState (commit st (undo st)))
   = length (previousState st) + length (nextState st) /\
   length (previousState (commit st (redo st)))
     + length (nextState (commit st (redo st)))
   = length (previousState st) + length (nextState st))
  /\
  (Permutation
     (currentState (commit st (undo st))
        :: previousState (commit st (undo st)) ++ nextState (commit st (undo st)))
     (currentState st :: previousState st ++ nextState st) /\
   Permutation
     (currentState (commit st (redo st))
        :: previousState (commit st (redo st)) ++ nextState (commit st (redo st)))
     (currentState st :: previousState st ++ nextState st)).
Proof.
  pose proof (timeline_undo st) as Hu.
  pose proof (timeline_redo st) as Hr.
  repeat split.
  - exact Hu.
  - exact Hr.
  - apply commit_undo_snoc.
  - apply commit_redo_snoc.
  - apply (f_equal (@length _)) in Hu. rewrite !timeline_length in Hu. lia.
  - apply (f_equal (@length _)) in Hr. rewrite !timeline_length in Hr. lia.
  - rewrite <- !timeline_permutation. now rewrite Hu.
  - rewrite <- !timeline_permutation. now rewrite Hr.
Qed.

(** ** Renders *)

Lemma render_defined (p : IUndoableProps) (st : IUndoableState) (n : nat) :
  currentState st <> None ->
  render p st n = {| props := p; this_state := st; adoptions := n |}.
Proof.
  intros Hc. unfold render.
  destruct (derive_defined p st Hc) as [-> ->]. reflexivity.
Qed.

Lemma derive_stacks (p : IUndoableProps) (st : IUndoableState) :
  previousState (derive p st) = previousState st /\
  nextState (derive p st) = nextState st.
Proof.
  unfold derive, getDerivedStateFromProps.
  destruct (truthy (initialState p) && is_undefined (currentState st));
    now split.
Qed.

Lemma derive_current (p : IUndoableProps) (st : IUndoableState) :
  truthy (initialState p) = true -> currentState (derive p st) <> None.
Proof.
  intros Hp. destruct (currentState st) as [ v | ] eqn:Hc.
  - assert (Hd : currentState st <> None) by (rewrite Hc; discriminate).
    destruct (derive_defined p st Hd) as [-> _]. exact Hd.
  - destruct (derive_seeds p st Hp Hc) as [-> _]. cbn.
    now apply truthy_defined.
Qed.

Lemma stable_render (p : IUndoableProps) (st : IUndoableState) (n : nat) :
  Forall (fun v => v <> None) (previousState st) ->
  Forall (fun v => v <> None) (nextState st) ->
  stable (render p st n).
Proof.
  intros Hprev Hnext Hp. unfold render in *. cbn [props this_state] in *.
  unfold defined_history.
  destruct (derive_stacks p st) as [-> ->].
  repeat split; auto using derive_current.
Qed.

Lemma stable_mount (p : IUndoableProps) : stable (mount p).
Proof.
  apply stable_render; constructor.
Qed.

Lemma stable_invoke (i : Instance) (c : Call) :
  stable i -> stable (handle i (Invoke c)).
Proof.
  intros Hs. destruct i as [p st n].
  assert (Hsnoc : forall xs (x : option T),
             Forall (fun v => v <> None) xs -> x <> None ->
             Forall (fun v => v <> None) (xs ++ [x])).
  { intros xs x Hxs Hx. apply Forall_app. split; [ exact Hxs | now constructor ]. }
  destruct c as [ | | v cb | v cb | v cb ]; cbn [handle invoke this_state props adoptions].
  - destruct (nil_or_snoc (previousState st)) as [Hp | (q & x & Hp)].
    + now rewrite (undo_nil st Hp).
    + rewrite (undo_snoc st q x Hp). cbn [effect].
      intros Ht. cbn [props render] in Ht.
      destruct (Hs Ht) as (Hc & Hprev & Hnext). cbn [this_state] in *.
      rewrite Hp in Hprev. apply Forall_app in Hprev. destruct Hprev as [Hq Hx].
      apply (stable_render p _ n); cbn; auto.
  - destruct (nil_or_snoc (nextState st)) as [Hf | (f & y & Hf)].
    + now rewrite (redo_nil st Hf).
    + rewrite (redo_snoc st f y Hf). cbn [effect].
      intros Ht. cbn [props render] in Ht.
      destruct (Hs Ht) as (Hc & Hprev & Hnext). cbn [this_state] in *.
      rewrite Hf in Hnext. apply Forall_app in Hnext. destruct Hnext as [Hq Hx].
      apply (stable_render p _ n); cbn; auto.
  - cbn [pushState effect]. intros Ht. cbn [props render] in Ht.
    destruct (Hs Ht) as (Hc & Hprev & Hnext). cbn [this_state] in *.
    apply (stable_render p _ n); cbn; auto.
  - cbn [resetState effect]. apply stable_render; cbn; constructor.
  - cbn [updateState effect]. intros Ht. cbn [props render] in Ht.
    destruct (Hs Ht) as (Hc & Hprev & Hnext). cbn [this_state] in *.
    apply (stable_render p _ n); cbn; auto.
Qed.

Lemma stable_lifetime (p : IUndoableProps) (es : list Event) :
  Forall is_invoke es -> stable (lifetime p es).
Proof.
  unfold lifetime. generalize (stable_mount p). generalize (mount p).
  induction es as [ | e es IH ]; intros i Hs Hes; cbn.
  - exact Hs.
  - inversion Hes as [ | e' es' He Hes' ]; subst.
    apply IH; [ | exact Hes' ].
    destruct e as [ c | q ]; [ now apply stable_invoke | contradiction ].
Qed.

(** The state a stable instance commits by undo or redo is rendered as
    committed. *)
Lemma handle_undo_stable (i : Instance) p x :
  stable i ->
  previousState (this_state i) = p ++ [x] ->
  handle i (Invoke CallUndo) =
    {| props := props i;
       this_state := commit (this_state i) (undo (this_state i));
       adoptions := adoptions i |}.
Proof.
  intros Hs Hp. unfold handle, invoke, commit.
  rewrite (undo_snoc _ p x Hp). cbn [effect].
  destruct (truthy (initialState (props i))) eqn:Ht.
  - apply render_defined. cbn.
    destruct (Hs Ht) as (_ & Hprev & _). rewrite Hp in Hprev.
    apply Forall_app in Hprev. destruct Hprev as [_ Hx]. now inversion Hx.
  - unfold render. now destruct (derive_falsy (props i) (merge (this_state i)
      {| set_currentState := Some x;
         set_previousState := Some p;
         set_nextState := Some (nextState (this_state i) ++ [currentState (this_state i)]) |}) Ht)
      as [-> ->].
Qed.

Lemma handle_redo_stable (i : Instance) f y :
  stable i ->
  nextState (this_state i) = f ++ [y] ->
  handle i (Invoke CallRedo) =
    {| props := props i;
       this_state := commit (this_state i) (redo (this_state i));
       adoptions := adoptions i |}.
Proof.
  intros Hs Hf. unfold handle, invoke, commit.
  rewrite (redo_snoc _ f y Hf). cbn [effect].
  destruct (truthy (initialState (props i))) eqn:Ht.
  - apply render_defined. cbn.
    destruct (Hs Ht) as (_ & _ & Hnext). rewrite Hf in Hnext.
    apply Forall_app in Hnext. destruct Hnext as [_ Hy]. now inversion Hy.
  - unfold render. now destruct (derive_falsy (props i) (merge (this_state i)
      {| set_currentState := Some y;
         set_previousState := Some (previousState (this_state i) ++ [currentState (this_state i)]);
         set_nextState := Some f |}) Ht)
      as [-> ->].
Qed.

(** On any state with something to undo, the state committed by [undo()]
    and then [redo()] is the state before. *)
Lemma commit_redo_undo (st : IUndoableState) :
  previousState st <> [] ->
  commit (commit st (undo st)) (redo (commit st (undo st))) = st.
Proof.
  intros Hne. destruct (nonempty_snoc Hne) as (p & x & Hp).
  rewrite (commit_undo_snoc st p x Hp).
  set (st' := {| currentState := x; previousState := p;
                 nextState := nextState st ++ [currentState st] |}).
  rewrite (commit_redo_snoc st' (nextState st) (currentState st) eq_refl).
  cbn. rewrite <- Hp. now destruct st.
Qed.

(** ** Scenarios and laws on a mounted component *)

(** A call that commits a [currentState] other than [undefined] is rendered
    as committed. *)
Lemma handle_invoke_defined (i : Instance) (c : Call) :
  currentState (commit (this_state i) (invoke c (this_state i))) <> None ->
  handle i (Invoke c) =
    {| props := props i;
       this_state := commit (this_state i) (invoke c (this_state i));
       adoptions := adoptions i |}.
Proof.
  unfold handle, commit.
  destruct (effect (invoke c (this_state i))) as [ | q cb ]; intros Hc.
  - now destruct i.
  - now apply render_defined.
Qed.

(** C1 (amended): from the history with [currentState = a] and both stacks
    empty, [pushState(b)], [pushState(c)] and two [undo()] calls give
    [currentState = a] with [previousState] empty; [nextState] is [[c]] after
    the first [undo()] and [[c, b]] after the second, the last undone value
    at the end. *)
Theorem two_pushes_two_undos
    (p : IUndoableProps) (n : nat) (a b c : T) (cb1 cb2 : option Callback) :
  let i0 := {| props := p; this_state := seeded a; adoptions := n |} in
  let i2 := fold_left handle
              [Invoke (CallPushState (Some b) cb1);
               Invoke (CallPushState (Some c) cb2)] i0 in
  let i3 := handle i2 (Invoke CallUndo) in
  let i4 := handle i3 (Invoke CallUndo) in
  this_state i2 =
    {| currentState := Some c;
       previousState := [Some a; Some b];
       nextState := [] |}
  /\ returned (undo (this_state i2)) = Some b
  /\ this_state i3 =
    {| currentState := Some b;
       previousState := [Some a];
       nextState := [Some c] |}
  /\ returned (undo (this_state i3)) = Some a
  /\ this_state i4 =
    {| currentState := Some a;
       previousState := [];
       nextState := [Some c; Some b] |}.
Proof.
  intros i0 i2 i3 i4.
  assert (H2 : i2 = {| props := p;
                       this_state := {| currentState := Some c;
                                        previousState := [Some a; Some b];
                                        nextState := [] |};
                       adoptions := n |}).
  { unfold i2, i0, seeded. cbn [fold_left].
    now rewrite !handle_invoke_defined by (cbn; discriminate). }
  assert (H3 : i3 = {| props := p;
                       this_state := {| currentState := Some b;
                                        previousState := [Some a];
                                        nextState := [Some c] |};
                       adoptions := n |}).
  { unfold i3. rewrite H2.
    now rewrite handle_invoke_defined by (cbn; discriminate). }
  assert (H4 : i4 = {| props := p;
                       this_state := {| currentState := Some a;
                                        previousState := [];
                                        nextState := [Some c; Some b] |};
                       adoptions := n |}).
  { unfold i4. rewrite H3.
    now rewrite handle_invoke_defined by (cbn; discriminate). }
  rewrite H2, H3, H4. repeat split.
Qed.

(** C2: on a component mounted with any props, after any calls of
    [pushState] followed by any calls of [undo] and [redo], if
    [previousState] is not empty then [undo()] followed by [redo()] gives
    back the instance as it was: the same [currentState], [previousState]
    and [nextState]. *)
Theorem undo_then_redo_restores
    (p : IUndoableProps) (pushes steps : list Event) :
  Forall is_pushState pushes ->
  Forall is_undo_or_redo steps ->
  previousState (this_state (lifetime p (pushes ++ steps))) <> [] ->
  handle (handle (lifetime p (pushes ++ steps)) (Invoke CallUndo)) (Invoke CallRedo)
  = lifetime p (pushes ++ steps).
Proof.
  intros Hpushes Hsteps Hne.
  assert (Hs : stable (lifetime p (pushes ++ steps))).
  { apply stable_lifetime, Forall_app. split.
    - eapply Forall_impl; [ | exact Hpushes ].
      intros [ c | q ]; [ easy | contradiction ].
    - eapply Forall_impl; [ | exact Hsteps ].
      intros [ c | q ]; [ easy | contradiction ]. }
  set (i := lifetime p (pushes ++ steps)) in *.
  destruct (nonempty_snoc Hne) as (q & x & Hq).
  pose proof (stable_invoke CallUndo Hs) as Hs1.
  rewrite (handle_undo_stable q x Hs Hq) in *.
  set (i1 := {| props := props i;
                this_state := commit (this_state i) (undo (this_state i));
                adoptions := adoptions i |}) in *.
  assert (Hf : nextState (this_state i1)
               = nextState (this_state i) ++ [currentState (this_state i)]).
  { unfold i1. cbn [this_state]. now rewrite (commit_undo_snoc _ q x Hq). }
  rewrite (handle_redo_stable _ _ Hs1 Hf).
  unfold i1. cbn [props this_state adoptions].
  rewrite (commit_redo_undo (this_state i) Hne). now destruct i.
Qed.

(** ** The seeding rule over the life of an instance *)

Lemma adopts_iff (p : IUndoableProps) (st : IUndoableState) :
  adopts p st = true <->
  truthy (initialState p) = true /\ currentState st = None.
Proof.
  unfold adopts, getDerivedStateFromProps.
  destruct (truthy (initialState p)), (currentState st); cbn; intuition congruence.
Qed.

Lemma defined_history_handle (i : Instance) (e : Event) :
  defined_history (this_state i) ->
  defined_event e ->
  defined_history (this_state (handle i e)) /\
  adoptions (handle i e) = adoptions i.
Proof.
  intros (Hc & Hprev & Hnext) He. destruct i as [p st n]. cbn [this_state] in *.
  assert (Hsnoc : forall xs (x : option T),
             Forall (fun v => v <> None) xs -> x <> None ->
             Forall (fun v => v <> None) (xs ++ [x])).
  { intros xs x Hxs Hx. apply Forall_app. split; [ exact Hxs | now constructor ]. }
  destruct e as [ c | q ]; cbn [handle this_state props adoptions].
  - destruct c as [ | | v cb | v cb | v cb ]; cbn [invoke defined_event defined_call] in *.
    + destruct (nil_or_snoc (previousState st)) as [Hp | (q & x & Hp)].
      * rewrite (undo_nil st Hp). cbn. unfold defined_history. auto.
      * rewrite (undo_snoc st q x Hp). cbn [effect].
        rewrite Hp in Hprev. apply Forall_app in Hprev. destruct Hprev as [Hq Hx].
        inversion Hx as [ | x' l' Hx' _ ]; subst.
        rewrite render_defined by exact Hx'.
        cbn. unfold defined_history. cbn. auto.
    + destruct (nil_or_snoc (nextState st)) as [Hf | (f & y & Hf)].
      * rewrite (redo_nil st Hf). cbn. unfold defined_history. auto.
      * rewrite (redo_snoc st f y Hf). cbn [effect].
        rewrite Hf in Hnext. apply Forall_app in Hnext. destruct Hnext as [Hq Hy].
        inversion Hy as [ | y' l' Hy' _ ]; subst.
        rewrite render_defined by exact Hy'.
        cbn. unfold defined_history. cbn. auto.
    + cbn [pushState effect]. rewrite render_defined by exact He.
      cbn. unfold defined_history. cbn. auto.
    + cbn [resetState effect]. rewrite render_defined by exact He.
      cbn. unfold defined_history. cbn. auto.
    + cbn [updateState effect]. rewrite render_defined by exact He.
      cbn. unfold defined_history. cbn. auto.
  - rewrite render_defined by exact Hc.
    cbn. unfold defined_history. auto.
Qed.

(** C8 (amended): the seeding rule fires exactly when the [initialState]
    prop is truthy and [currentState] is [undefined]; on an instance whose
    history holds no [undefined], it does not fire again, and the history
    keeps holding no [undefined], whatever props the instance receives and
    whatever [undo], [redo] and [pushState], [updateState], [resetState] with
    a value other than [undefined] are called. *)
Theorem seeding_rule_guard_and_lifetime :
  (forall p st,
     adopts p st = true <->
     truthy (initialState p) = true /\ currentState st = None)
  /\
  (forall (i : Instance) (es : list Event),
     defined_history (this_state i) ->
     Forall defined_event es ->
     adoptions (fold_left handle es i) = adoptions i /\
     defined_history (this_state (fold_left handle es i))).
Proof.
  split; [ exact adopts_iff | ].
  intros i es. revert i.
  induction es as [ | e es IH ]; intros i Hd Hes; cbn.
  - now split.
  - inversion Hes as [ | e' es' He Hes' ]; subst.
    destruct (defined_history_handle i e Hd He) as [Hd' Ha'].
    destruct (IH (handle i e) Hd' Hes') as [Ha'' Hd''].
    split; [ congruence | exact Hd'' ].
Qed.

(** C10: [resetState] accepts a call without a value; it then commits the
    state with [currentState] [undefined] and both stacks empty, and when the
    [initialState] prop is truthy the next derivation, with whatever props
    are current, seeds [currentState] from it once more: on the instance the
    render that follows the call counts one more adoption. *)
Theorem resetState_without_value_reseeds
    (i : Instance) (callback : option Callback) :
  commit (this_state i) (resetState (this_state i) None callback) = state
  /\
  (forall p, truthy (initialState p) = true ->
     derive p (commit (this_state i) (resetState (this_state i) None callback))
     = {| currentState := initialState p; previousState := []; nextState := [] |})
  /\
  (truthy (initialState (props i)) = true ->
     handle i (Invoke (CallResetState None callback)) =
       {| props := props i;
          this_state := {| currentState := initialState (props i);
                           previousState := [];
                           nextState := [] |};
          adoptions := S (adoptions i) |}).
Proof.
  split; [ reflexivity | split ].
  - intros p Hp. exact (proj1 (derive_seeds p state Hp eq_refl)).
  - intros Hp. cbn [handle invoke resetState effect]. unfold render.
    destruct (derive_seeds (props i) state Hp eq_refl) as [Hd Ha].
    change (merge (this_state i) _) with state.
    now rewrite Hd, Ha.
Qed.

(** ** The history as a timeline with a cursor *)


Lemma current_at_cursor (st : IUndoableState) :
  currentState st = nth (cursor st) (timeline st) None.
Proof.
  unfold cursor, timeline. cbn [app]. now rewrite nth_middle.
Qed.

Lemma at_cursor_timeline (st : IUndoableState) :
  at_cursor (timeline st) (cursor st) = st.
Proof.
  destruct st as [c P F]. unfold at_cursor, cursor, timeline.
  cbn [currentState previousState nextState app].
  rewrite nth_middle.
  rewrite firstn_app, firstn_all, Nat.sub_diag. cbn [firstn].
  rewrite app_nil_r.
  rewrite skipn_app, skipn_all2 by lia.
  replace (S (length P) - length P) with 1 by lia.
  cbn [skipn app]. now rewrite rev_involutive.
Qed.


Lemma timeline_cursor_inj (st1 st2 : IUndoableState) :
  timeline st1 = timeline st2 -> cursor st1 = cursor st2 -> st1 = st2.
Proof.
  intros Ht Hc.
  rewrite <- (at_cursor_timeline st1), <- (at_cursor_timeline st2).
  now rewrite Ht, Hc.
Qed.

Lemma cursor_bound (st : IUndoableState) :
  length (timeline st) = S (cursor st + length (nextState st)).
Proof.
  apply timeline_length.
Qed.

Lemma cursor_undo (st : IUndoableState) :
  cursor (commit st (undo st)) = pred (cursor st).
Proof.
  unfold cursor.
  destruct (nil_or_snoc (previousState st)) as [Hp | (p & x & Hp)].
  - rewrite (undo_nil st Hp). cbn. now rewrite Hp.
  - rewrite (commit_undo_snoc st p x Hp), Hp, length_app. cbn. lia.
Qed.

Lemma cursor_redo (st : IUndoableState) :
  cursor (commit st (redo st))
  = Nat.min (S (cursor st)) (cursor st + length (nextState st)).
Proof.
  unfold cursor.
  destruct (nil_or_snoc (nextState st)) as [Hf | (f & y & Hf)].
  - rewrite (redo_nil st Hf). unfold commit. cbn [effect].
    rewrite Hf. cbn [length]. lia.
  - rewrite (commit_redo_snoc st f y Hf), Hf. cbn [previousState].
    rewrite !length_app. cbn [length]. lia.
Qed.

Lemma timeline_undos (n : nat) (st : IUndoableState) :
  timeline (undos n st) = timeline st.
Proof.
  induction n as [ | n IH ]; [ reflexivity | ].
  unfold undos in *. rewrite Nat.iter_succ, timeline_undo. exact IH.
Qed.

Lemma timeline_redos (n : nat) (st : IUndoableState) :
  timeline (redos n st) = timeline st.
Proof.
  induction n as [ | n IH ]; [ reflexivity | ].
  unfold redos in *. rewrite Nat.iter_succ, timeline_redo. exact IH.
Qed.

Lemma cursor_undos (n : nat) (st : IUndoableState) :
  cursor (undos n st) = cursor st - n.
Proof.
  induction n as [ | n IH ]; [ cbn; lia | ].
  unfold undos in *. rewrite Nat.iter_succ, cursor_undo, IH. lia.
Qed.

Lemma future_length (st st' : IUndoableState) :
  timeline st' = timeline st ->
  cursor st' + length (nextState st') = cursor st + length (nextState st).
Proof.
  intros Ht. apply (f_equal (@length _)) in Ht.
  rewrite !cursor_bound in Ht. lia.
Qed.

Lemma cursor_redos (n : nat) (st : IUndoableState) :
  cursor (redos n st)
  = Nat.min (cursor st + n) (cursor st + length (nextState st)).
Proof.
  induction n as [ | n IH ]; [ cbn; lia | ].
  pose proof (future_length st (redos n st) (timeline_redos n st)) as Hlen.
  unfold redos in *. rewrite Nat.iter_succ, cursor_redo. lia.
Qed.






(** ** The writing operations on the timeline *)

(** X5: on the timeline, [pushState(v)] keeps the entries up to the cursor,
    drops the ones after it, appends [v] and moves the cursor onto it;
    [updateState(v)] replaces the entry at the cursor and keeps the others and
    the cursor; [resetState(v)] leaves the one entry [v]. *)
Theorem writes_on_timeline
    (st : IUndoableState) (v : option T) (callback : option Callback) :
  (timeline (commit st (pushState st v callback))
     = firstn (S (cursor st)) (timeline st) ++ [v] /\
   cursor (commit st (pushState st v callback)) = S (cursor st))
  /\
  (timeline (commit st (updateState st v callback))
     = firstn (cursor st) (timeline st) ++ v :: skipn (S (cursor st)) (timeline st) /\
   cursor (commit st (updateState st v callback)) = cursor st)
  /\
  (timeline (commit st (resetState st v callback)) = [v] /\
   cursor (commit st (resetState st v callback)) = 0).
Proof.
  destruct st as [c P F]. unfold timeline, cursor.
  cbn [commit effect pushState updateState resetState merge
       set_currentState set_previousState set_nextState
       currentState previousState nextState rev app].
  assert (Hfirst : firstn (length P) (P ++ c :: rev F) = P).
  { rewrite firstn_app, firstn_all, Nat.sub_diag. cbn. apply app_nil_r. }
  assert (Hfirst' : firstn (S (length P)) (P ++ c :: rev F) = P ++ [c]).
  { rewrite firstn_app, firstn_all2 by lia.
    replace (S (length P) - length P) with 1 by lia. reflexivity. }
  assert (Hskip : skipn (S (length P)) (P ++ c :: rev F) = rev F).
  { rewrite skipn_app, skipn_all2 by lia.
    replace (S (length P) - length P) with 1 by lia. reflexivity. }
  rewrite Hfirst, Hfirst', Hskip, length_app. cbn [length].
  repeat split. lia.
Qed.



(** ** More on the mounted component *)

Lemma render_stacks (p : IUndoableProps) (st : IUndoableState) (n : nat) :
  previousState (this_state (render p st n)) = previousState st /\
  nextState (this_state (render p st n)) = nextState st.
Proof.
  unfold render. cbn [this_state]. apply derive_stacks.
Qed.

Lemma handle_undo_nil (i : Instance) :
  previousState (this_state i) = [] -> handle i (Invoke CallUndo) = i.
Proof.
  intros Hp. unfold handle, invoke. now rewrite (undo_nil _ Hp).
Qed.

Lemma handle_redo_nil (i : Instance) :
  nextState (this_state i) = [] -> handle i (Invoke CallRedo) = i.
Proof.
  intros Hf. unfold handle, invoke. now rewrite (redo_nil _ Hf).
Qed.

(** X7: on a mounted component, whatever the props and the value, a
    [redo()] right after [pushState] returns [undefined] and changes nothing,
    and right after [resetState] both [undo()] and [redo()] do. *)
Theorem no_redo_after_write
    (i : Instance) (v : option T) (callback : option Callback) :
  (let i1 := handle i (Invoke (CallPushState v callback)) in
   returned (redo (this_state i1)) = None /\
   handle i1 (Invoke CallRedo) = i1)
  /\
  (let i2 := handle i (Invoke (CallResetState v callback)) in
   returned (undo (this_state i2)) = None /\
   handle i2 (Invoke CallUndo) = i2 /\
   returned (redo (this_state i2)) = None /\
   handle i2 (Invoke CallRedo) = i2).
Proof.
  split.
  - intros i1.
    assert (Hf : nextState (this_state i1) = []).
    { unfold i1. cbn [handle invoke pushState effect].
      now rewrite (proj2 (render_stacks _ _ _)). }
    split; [ now rewrite (redo_nil _ Hf) | now apply handle_redo_nil ].
  - intros i2.
    assert (Hp : previousState (this_state i2) = []).
    { unfold i2. cbn [handle invoke resetState effect].
      now rewrite (proj1 (render_stacks _ _ _)). }
    assert (Hf : nextState (this_state i2) = []).
    { unfold i2. cbn [handle invoke resetState effect].
      now rewrite (proj2 (render_stacks _ _ _)). }
    split; [ now rewrite (undo_nil _ Hp) | ].
    split; [ now apply handle_undo_nil | ].
    split; [ now rewrite (redo_nil _ Hf) | now apply handle_redo_nil ].
Qed.

Lemma derive_settled (p : IUndoableProps) (st : IUndoableState) :
  derive p (derive p st) = derive p st /\ adopts p (derive p st) = false.
Proof.
  destruct (truthy (initialState p)) eqn:Hp.
  - apply derive_defined. now apply derive_current.
  - now apply derive_falsy.
Qed.

(** X8: a derivation settles the seeding rule: deriving again with the same
    props changes nothing and does not fire the rule, so a component that is
    rendered again with the props it has stays as it is. *)
Theorem rerender_with_same_props
    (p : IUndoableProps) (st : IUndoableState) (n : nat) :
  derive p (derive p st) = derive p st /\
  adopts p (derive p st) = false /\
  handle (render p st n) (ReceiveProps p) = render p st n.
Proof.
  destruct (derive_settled p st) as [Hd Ha].
  split; [ exact Hd | split; [ exact Ha | ] ].
  cbn [handle]. unfold render. cbn [this_state adoptions].
  rewrite Hd, Ha. reflexivity.
Qed.

Lemma handle_invoke_falsy (i : Instance) (c : Call) :
  truthy (initialState (props i)) = false ->
  handle i (Invoke c) =
    {| props := props i;
       this_state := commit (this_state i) (invoke c (this_state i));
       adoptions := adoptions i |}.
Proof.
  intros Hp. unfold handle, commit.
  destruct (effect (invoke c (this_state i))) as [ | q cb ].
  - now destruct i.
  - unfold render.
    now destruct (derive_falsy (props i) (merge (this_state i) q) Hp) as [-> ->].
Qed.

Lemma fold_handle_falsy (cs : list Call) (i : Instance) :
  truthy (initialState (props i)) = false ->
  fold_left handle (map Invoke cs) i =
    {| props := props i;
       this_state := commits cs (this_state i);
       adoptions := adoptions i |}.
Proof.
  revert i. induction cs as [ | c cs IH ]; intros i Hp.
  - now destruct i.
  - cbn [map fold_left]. rewrite (handle_invoke_falsy i c Hp).
    now rewrite IH.
Qed.

(** X9: a falsy [initialState] prop (0, the empty string, [false], [null] or
    a missing value) is never adopted: the component mounts with
    [currentState] [undefined], and under any method calls its state is the
    one the calls commit, the seeding rule never firing. *)
Theorem falsy_initialState_never_adopted
    (p : IUndoableProps) (cs : list Call) :
  truthy (initialState p) = false ->
  mount p = {| props := p; this_state := state; adoptions := 0 |} /\
  lifetime p (map Invoke cs)
  = {| props := p; this_state := commits cs state; adoptions := 0 |}.
Proof.
  intros Hp.
  assert (Hm : mount p = {| props := p; this_state := state; adoptions := 0 |}).
  { unfold mount, render. now destruct (derive_falsy p state Hp) as [-> ->]. }
  split; [ exact Hm | ].
  unfold lifetime. rewrite Hm. now rewrite fold_handle_falsy.
Qed.

Lemma props_handle_invoke (i : Instance) (c : Call) :
  props (handle i (Invoke c)) = props i.
Proof.
  unfold handle. now destruct (effect (invoke c (this_state i))).
Qed.

Lemma adopts_truthy (p : IUndoableProps) (st : IUndoableState) :
  truthy (initialState p) = true ->
  adopts p st = is_undefined (currentState st).
Proof.
  intros Hp. unfold adopts, getDerivedStateFromProps. rewrite Hp.
  now destruct (currentState st).
Qed.

Lemma adoptions_handle_invoke (i : Instance) (c : Call) :
  stable i ->
  truthy (initialState (props i)) = true ->
  adoptions (handle i (Invoke c))
  = adoptions i + (if passes_undefined c then 1 else 0).
Proof.
  intros Hs Hp.
  destruct c as [ | | v cb | v cb | v cb ]; cbn [passes_undefined].
  - destruct (nil_or_snoc (previousState (this_state i))) as [Hq | (q & x & Hq)].
    + rewrite (handle_undo_nil i Hq). lia.
    + rewrite (handle_undo_stable q x Hs Hq). cbn. lia.
  - destruct (nil_or_snoc (nextState (this_state i))) as [Hf | (f & y & Hf)].
    + rewrite (handle_redo_nil i Hf). lia.
    + rewrite (handle_redo_stable f y Hs Hf). cbn. lia.
  - cbn [handle invoke pushState effect]. unfold render. cbn [adoptions].
    rewrite (adopts_truthy _ _ Hp). cbn. destruct (is_undefined v); lia.
  - cbn [handle invoke resetState effect]. unfold render. cbn [adoptions].
    rewrite (adopts_truthy _ _ Hp). cbn. destruct (is_undefined v); lia.
  - cbn [handle invoke updateState effect]. unfold render. cbn [adoptions].
    rewrite (adopts_truthy _ _ Hp). cbn. destruct (is_undefined v); lia.
Qed.

Lemma fold_handle_truthy (cs : list Call) (i : Instance) :
  stable i ->
  truthy (initialState (props i)) = true ->
  stable (fold_left handle (map Invoke cs) i) /\
  props (fold_left handle (map Invoke cs) i) = props i /\
  adoptions (fold_left handle (map Invoke cs) i)
  = adoptions i + length (filter passes_undefined cs).
Proof.
  revert i. induction cs as [ | c cs IH ]; intros i Hs Hp.
  - cbn [map fold_left filter length].
    split; [ exact Hs | split; [ reflexivity | lia ] ].
  - cbn [map fold_left filter].
    pose proof (stable_invoke c Hs) as Hs'.
    pose proof (props_handle_invoke i c) as Hprops.
    pose proof (adoptions_handle_invoke c Hs Hp) as Ha.
    rewrite <- Hprops in Hp.
    destruct (IH (handle i (Invoke c)) Hs' Hp) as (Hs'' & Hprops'' & Ha'').
    split; [ exact Hs'' | split; [ congruence | ] ].
    rewrite Ha'', Ha. destruct (passes_undefined c); cbn [length]; lia.
Qed.

(** X10: with a truthy [initialState] prop that does not change, the
    component mounts with that value as [currentState], no method call ever
    leaves [undefined] in [currentState], [previousState] or [nextState], and
    the seeding rule fires once at mount and once more for each [pushState],
    [updateState] or [resetState] call that passes [undefined], never for
    [undo()] or [redo()]. *)
Theorem truthy_initialState_adoptions
    (p : IUndoableProps) (cs : list Call) :
  truthy (initialState p) = true ->
  this_state (mount p)
    = {| currentState := initialState p; previousState := []; nextState := [] |}
  /\ defined_history (this_state (lifetime p (map Invoke cs)))
  /\ adoptions (lifetime p (map Invoke cs))
     = S (length (filter passes_undefined cs)).
Proof.
  intros Hp.
  destruct (derive_seeds p state Hp eq_refl) as [Hd Ha].
  assert (Hm : mount p = {| props := p;
                            this_state := {| currentState := initialState p;
                                             previousState := [];
                                             nextState := [] |};
                            adoptions := 1 |}).
  { unfold mount, render. now rewrite Hd, Ha. }
  split; [ now rewrite Hm | ].
  pose proof (stable_mount p) as Hs.
  assert (Hp' : truthy (initialState (props (mount p))) = true)
    by now rewrite Hm.
  destruct (fold_handle_truthy cs Hs Hp') as (Hs' & Hprops & Hadopt).
  unfold lifetime. split.
  - apply Hs'. now rewrite Hprops.
  - rewrite Hadopt, Hm. reflexivity.
Qed.

Lemma commit_undo_redo (st : IUndoableState) :
  nextState st <> [] ->
  commit (commit st (redo st)) (undo (commit st (redo st))) = st.
Proof.
  intros Hne. apply timeline_cursor_inj.
  - now rewrite timeline_undo, timeline_redo.
  - rewrite cursor_undo, cursor_redo.
    assert (length (nextState st) <> 0)
      by (intros H0; now apply length_zero_iff_nil in H0).
    lia.
Qed.

Lemma is_invoke_map (cs : list Call) : Forall is_invoke (map Invoke cs).
Proof.
  induction cs as [ | c cs IH ]; constructor; [ exact I | exact IH ].
Qed.

(** X11: on a component mounted with any props, after any method calls, if
    [nextState] is not empty then [redo()] followed by [undo()] gives back the
    instance as it was. *)
Theorem redo_then_undo_restores (p : IUndoableProps) (cs : list Call) :
  nextState (this_state (lifetime p (map Invoke cs))) <> [] ->
  handle (handle (lifetime p (map Invoke cs)) (Invoke CallRedo)) (Invoke CallUndo)
  = lifetime p (map Invoke cs).
Proof.
  intros Hne.
  pose proof (stable_lifetime p (is_invoke_map cs)) as Hs.
  set (i := lifetime p (map Invoke cs)) in *.
  destruct (nonempty_snoc Hne) as (f & y & Hf).
  pose proof (stable_invoke CallRedo Hs) as Hs1.
  rewrite (handle_redo_stable f y Hs Hf) in *.
  set (i1 := {| props := props i;
                this_state := commit (this_state i) (redo (this_state i));
                adoptions := adoptions i |}) in *.
  assert (Hq : previousState (this_state i1)
               = previousState (this_state i) ++ [currentState (this_state i)]).
  { unfold i1. cbn [this_state]. now rewrite (commit_redo_snoc _ f y Hf). }
  rewrite (handle_undo_stable _ _ Hs1 Hq).
  unfold i1. cbn [props this_state adoptions].
  rewrite (commit_undo_redo (this_state i) Hne). now destruct i.
Qed.

(** X12: in a row of [undo()] calls, the call number [n + 1] returns the
    timeline's value [n + 1] places before the cursor, as long as
    [previousState] holds that many values; in a row of [redo()] calls, the
    call number [n + 1] returns the value [n + 1] places after the cursor, as
    long as [nextState] holds that many. *)
Theorem nth_undo_redo_returns (n : nat) (st : IUndoableState) :
  (n < length (previousState st) ->
     returned (undo (undos n st)) = nth (cursor st - S n) (timeline st) None)
  /\
  (n < length (nextState st) ->
     returned (redo (redos n st)) = nth (cursor st + S n) (timeline st) None).
Proof.
  split; intros Hn.
  - pose proof (cursor_undos n st) as Hc.
    destruct (nil_or_snoc (previousState (undos n st))) as [Hq | (q & x & Hq)].
    { unfold cursor in Hc. rewrite Hq in Hc. cbn in Hc. lia. }
    rewrite (undo_snoc _ q x Hq). cbn [returned].
    rewrite <- (timeline_undos (S n) st), <- (cursor_undos (S n) st).
    rewrite <- current_at_cursor.
    unfold undos. rewrite Nat.iter_succ. fold (undos n st).
    now rewrite (commit_undo_snoc _ q x Hq).
  - pose proof (cursor_redos n st) as Hc.
    pose proof (future_length st (redos n st) (timeline_redos n st)) as Hlen.
    destruct (nil_or_snoc (nextState (redos n st))) as [Hf | (f & y & Hf)].
    { rewrite Hf in Hlen. cbn in Hlen. lia. }
    rewrite (redo_snoc _ f y Hf). cbn [returned].
    replace (cursor st + S n) with (cursor (redos (S n) st))
      by (rewrite cursor_redos; lia).
    rewrite <- (timeline_redos (S n) st), <- current_at_cursor.
    unfold redos. rewrite Nat.iter_succ. fold (redos n st).
    now rewrite (commit_redo_snoc _ f y Hf).
Qed.

End Undoable.


(** ** The repository's tests, on the model

    [T] is [JsValue]; no test passes a callback. *)

Example test_initial_state :
  this_state (mount (Build_IUndoableProps (Some defaultState)))
  = seeded defaultState.
Proof. reflexivity. Qed.

Example test_undo_updates_the_state :
  this_state
    (lifetime (Build_IUndoableProps (Some defaultState))
       [Invoke (CallPushState (Some (changedState)) (@None unit));
        Invoke (CallUndo unit)])
  = {| currentState := Some defaultState;
       previousState := [];
       nextState := [Some (changedState)] |}.
Proof. reflexivity. Qed.

Example test_redo_updates_the_state :
  this_state
    (lifetime (Build_IUndoableProps (Some defaultState))
       [Invoke (CallPushState (Some (changedState)) (@None unit));
        Invoke (CallUndo unit);
        Invoke (CallRedo unit)])
  = {| currentState := Some (changedState);
       previousState := [Some defaultState];
       nextState := [] |}.
Proof. reflexivity. Qed.

Example test_redo_returns_the_next_state :
  returned
    (redo unit
       (this_state
          (lifetime (Build_IUndoableProps (Some defaultState))
             [Invoke (CallPushState (Some (changedState)) (@None unit));
              Invoke (CallUndo unit)])))
  = Some (changedState).
Proof. reflexivity. Qed.

Example test_undo_returns_the_next_state :
  returned
    (undo unit
       (this_state
          (lifetime (Build_IUndoableProps (Some defaultState))
             [Invoke (CallPushState (Some (changedState)) (@None unit))])))
  = Some defaultState.
Proof. reflexivity. Qed.

Example test_updateState_does_not_track :
  this_state
    (lifetime (Build_IUndoableProps (Some defaultState))
       [Invoke (CallUpdateState (Some (changedState)) (@None unit))])
  = seeded (changedState).
Proof. reflexivity. Qed.

(** The spec's second scenario: after [updateState], [undo()] has nothing to
    undo. *)
Example scenario_update_then_undo :
  let i := lifetime (Build_IUndoableProps (Some (JsObject [("x"%string, JsString "a")])))
             [Invoke (CallUpdateState (Some (JsObject [("x"%string, JsString "b")]))
                                      (@None unit))] in
  previousState (this_state i) = [] /\
  returned (undo unit (this_state i)) = None /\
  currentState (this_state (handle i (Invoke (CallUndo unit))))
  = Some (JsObject [("x"%string, JsString "b")]).
Proof. repeat split. Qed.

(** A falsy [initialState] (here the number 0) is never adopted: the first
    [pushState] records [undefined]. *)
Example falsy_initial_state_is_not_adopted :
  this_state
    (lifetime (Build_IUndoableProps (Some (JsNumber 0)))
       [Invoke (CallPushState (Some (JsNumber 5)) (@None unit))])
  = {| currentState := Some (JsNumber 5);
       previousState := [None];
       nextState := [] |}.
Proof. reflexivity. Qed.

(** An [undo()] that restores a recorded [undefined] lets the rule seed
    [currentState] from props that became truthy in the meantime; the value
    [undo()] returned is the recorded [undefined]. *)
Example undo_to_undefined_is_seeded :
  let i := lifetime (Build_IUndoableProps (Some (JsNumber 0)))
             [Invoke (CallPushState (Some (JsNumber 5)) (@None unit));
              ReceiveProps unit (Build_IUndoableProps (Some (JsNumber 7)))] in
  returned (undo unit (this_state i)) = None /\
  this_state (handle i (Invoke (CallUndo unit)))
  = {| currentState := Some (JsNumber 7);
       previousState := [];
       nextState := [Some (JsNumber 5)] |}.
Proof. split; reflexivity. Qed.

(** ** Concrete runs *)

(** C1, as stated, fails: with a = {count: 0}, b = {count: 1} and
    c = {count: 2}, [nextState] after the second [undo()] is [[c, b]] and not
    [[b, c]]. *)
Lemma two_undos_future_order_counterexample :
  let p := Build_IUndoableProps (Some (counter 0)) in
  let i2 := lifetime p
              [Invoke (CallPushState (Some (counter 1)) (@None unit));
               Invoke (CallPushState (Some (counter 2)) (@None unit))] in
  let i3 := handle i2 (Invoke (CallUndo unit)) in
  let i4 := handle i3 (Invoke (CallUndo unit)) in
  this_state (mount p) = seeded (counter 0) /\
  nextState (this_state i3) = [Some (counter 2)] /\
  currentState (this_state i4) = Some (counter 0) /\
  previousState (this_state i4) = [] /\
  nextState (this_state i4) = [Some (counter 2); Some (counter 1)] /\
  nextState (this_state i4) <> [Some (counter 1); Some (counter 2)].
Proof.
  repeat split. vm_compute. discriminate.
Qed.

(** C8, as stated, fails: the rule has fired at mount and [currentState] has
    been set and pushed over; the props change, and a [resetState()] without
    a value makes the rule fire a second time, which replaces the current
    value by the new [initialState]. *)
Lemma seeding_rule_refires_counterexample :
  let p := Build_IUndoableProps (Some defaultState) in
  let p' := Build_IUndoableProps (Some (counter 0)) in
  let i1 := lifetime p [Invoke (CallPushState (Some (counter 1)) (@None unit))] in
  let i2 := fold_left (@handle _ _ unit)
              [ReceiveProps unit p'; Invoke (CallResetState None None)] i1 in
  adoptions (mount p) = 1 /\
  currentState (this_state i1) = Some (counter 1) /\
  adoptions i1 = 1 /\
  adopts p' (commit (this_state i1) (resetState (this_state i1) None (@None unit)))
  = true /\
  adoptions i2 = 2 /\
  currentState (this_state i2) = Some (counter 0).
Proof.
  repeat split.
Qed.

(** The inverse law after two pushes, two undos and a redo. *)
Lemma undo_then_redo_restores_witness :
  let p := Build_IUndoableProps (Some defaultState) in
  let pushes := [Invoke (CallPushState (Some (counter 1)) (@None unit));
                 Invoke (CallPushState (Some (counter 2)) (@None unit))] in
  let steps := [Invoke (CallUndo unit); Invoke (CallUndo unit);
                Invoke (CallRedo unit)] in
  Forall (@is_pushState _ unit) pushes /\
  Forall (@is_undo_or_redo _ unit) steps /\
  previousState (this_state (lifetime p (pushes ++ steps))) <> [] /\
  handle (handle (lifetime p (pushes ++ steps)) (Invoke (CallUndo unit)))
         (Invoke (CallRedo unit))
  = lifetime p (pushes ++ steps).
Proof.
  intros p pushes steps.
  assert (Hpushes : Forall (@is_pushState _ unit) pushes)
    by (repeat constructor).
  assert (Hsteps : Forall (@is_undo_or_redo _ unit) steps)
    by (repeat constructor).
  assert (Hne : previousState (this_state (lifetime p (pushes ++ steps))) <> [])
    by (vm_compute; discriminate).
  split; [ exact Hpushes | ].
  split; [ exact Hsteps | ].
  split; [ exact Hne | ].
  exact (undo_then_redo_restores p Hpushes Hsteps Hne).
Defined.

(** The returned values on a history with two past values and one future
    value. *)
Lemma undo_redo_return_restored_witness :
  let st := {| currentState := Some (counter 2);
               previousState := [Some (counter 0); Some (counter 1)];
               nextState := [Some (counter 3)] |} in
  (previousState st = [Some (counter 0)] ++ [Some (counter 1)] /\
   returned (undo unit st) = Some (counter 1) /\
   currentState (commit st (undo unit st)) = returned (undo unit st))
  /\
  (nextState st = [] ++ [Some (counter 3)] /\
   returned (redo unit st) = Some (counter 3) /\
   currentState (commit st (redo unit st)) = returned (redo unit st)).
Proof.
  intros st.
  destruct (undo_redo_return_restored unit st) as [Hundo Hredo].
  split.
  - split; [ reflexivity | ].
    exact (Hundo [Some (counter 0)] (Some (counter 1)) eq_refl).
  - split; [ reflexivity | ].
    exact (Hredo [] (Some (counter 3)) eq_refl).
Defined.

(** Both boundaries at once: a freshly mounted component. *)
Lemma undo_redo_noop_at_boundary_witness :
  let i := @mount _ _ (Build_IUndoableProps (Some defaultState)) in
  previousState (this_state i) = [] /\
  nextState (this_state i) = [] /\
  returned (undo unit (this_state i)) = None /\
  effect (undo unit (this_state i)) = NoSetState unit /\
  handle i (Invoke (CallUndo unit)) = i /\
  returned (redo unit (this_state i)) = None /\
  effect (redo unit (this_state i)) = NoSetState unit /\
  handle i (Invoke (CallRedo unit)) = i.
Proof.
  intros i.
  destruct (undo_redo_noop_at_boundary unit i) as [Hundo Hredo].
  destruct (Hundo eq_refl) as (Hu1 & Hu2 & _ & Hu4).
  destruct (Hredo eq_refl) as (Hr1 & Hr2 & _ & Hr4).
  split; [ reflexivity | ].
  split; [ reflexivity | ].
  split; [ exact Hu1 | ].
  split; [ exact Hu2 | ].
  split; [ exact Hu4 | ].
  split; [ exact Hr1 | ].
  split; [ exact Hr2 | exact Hr4 ].
Defined.

(** The two moves on a history with two past values and one future value. *)
Lemma undo_redo_preserve_timeline_witness :
  let st := {| currentState := Some (counter 2);
               previousState := [Some (counter 0); Some (counter 1)];
               nextState := [Some (counter 3)] |} in
  timeline (commit st (undo unit st)) = timeline st /\
  timeline (commit st (redo unit st)) = timeline st /\
  commit st (undo unit st) =
    {| currentState := Some (counter 1);
       previousState := [Some (counter 0)];
       nextState := [Some (counter 3); Some (counter 2)] |} /\
  commit st (redo unit st) =
    {| currentState := Some (counter 3);
       previousState := [Some (counter 0); Some (counter 1); Some (counter 2)];
       nextState := [] |}.
Proof.
  intros st.
  destruct (undo_redo_preserve_timeline unit st)
    as ((Htu & Htr) & Hundo & Hredo & _).
  split; [ exact Htu | ].
  split; [ exact Htr | ].
  split.
  - exact (Hundo [Some (counter 0)] (Some (counter 1)) eq_refl).
  - exact (Hredo [] (Some (counter 3)) eq_refl).
Defined.

(** A life with a change of props in it: one adoption, at mount. *)
Lemma seeding_rule_guard_and_lifetime_witness :
  let p := Build_IUndoableProps (Some defaultState) in
  let es := [Invoke (CallPushState (Some (counter 1)) (@None unit));
             ReceiveProps unit (Build_IUndoableProps (Some (counter 7)));
             Invoke (CallUndo unit);
             Invoke (CallResetState (Some (counter 2)) None);
             Invoke (CallRedo unit);
             Invoke (CallUpdateState (Some (counter 3)) None)] in
  defined_history (this_state (mount p)) /\
  Forall (@defined_event _ unit) es /\
  adoptions (fold_left (@handle _ _ unit) es (mount p)) = adoptions (mount p) /\
  defined_history (this_state (fold_left (@handle _ _ unit) es (mount p))).
Proof.
  intros p es.
  assert (Hd : defined_history (this_state (mount p))).
  { repeat split; [ discriminate | constructor | constructor ]. }
  assert (Hes : Forall (@defined_event _ unit) es).
  { repeat constructor; discriminate. }
  destruct (seeding_rule_guard_and_lifetime (T:=JsValue) unit) as [_ Hlife].
  destruct (Hlife (mount p) es Hd Hes) as [Ha Hd'].
  split; [ exact Hd | ].
  split; [ exact Hes | ].
  split; [ exact Ha | exact Hd' ].
Defined.

(** [resetState()] after a push: the second adoption brings [defaultState]
    back. *)
Lemma resetState_without_value_reseeds_witness :
  let p := Build_IUndoableProps (Some defaultState) in
  let i := lifetime p [Invoke (CallPushState (Some (counter 1)) (@None unit))] in
  truthy (initialState (props i)) = true /\
  this_state i =
    {| currentState := Some (counter 1);
       previousState := [Some defaultState];
       nextState := [] |} /\
  handle i (Invoke (CallResetState None (@None unit))) =
    {| props := p; this_state := seeded defaultState; adoptions := 2 |}.
Proof.
  intros p i.
  destruct (resetState_without_value_reseeds i (@None unit)) as (_ & _ & Hhandle).
  split; [ reflexivity | ].
  split; [ reflexivity | ].
  exact (Hhandle eq_refl).
Defined.

(** ** Concrete runs on a longer history

    The history below has the timeline [{count: 0}], ..., [{count: 4}] with
    the cursor on [{count: 2}]. *)





(** The number 0 as [initialState]. *)
Lemma falsy_initialState_never_adopted_witness :
  let p := Build_IUndoableProps (Some (JsNumber 0)) in
  let cs := [CallPushState (Some (JsNumber 5)) (@None unit); CallUndo unit] in
  truthy (initialState p) = false /\
  lifetime p (map (@Invoke _ unit) cs)
  = {| props := p;
       this_state := {| currentState := None;
                        previousState := [];
                        nextState := [Some (JsNumber 5)] |};
       adoptions := 0 |}.
Proof.
  intros p cs.
  assert (Hp : truthy (initialState p) = false) by reflexivity.
  split; [ exact Hp | ].
  exact (proj2 (falsy_initialState_never_adopted p cs Hp)).
Defined.

(** Two calls that pass [undefined] among four. *)
Lemma truthy_initialState_adoptions_witness :
  let p := Build_IUndoableProps (Some defaultState) in
  let cs := [CallPushState (Some (counter 1)) (@None unit);
             CallResetState None None;
             CallUndo unit;
             CallUpdateState None None] in
  truthy (initialState p) = true /\
  defined_history (this_state (lifetime p (map (@Invoke _ unit) cs))) /\
  adoptions (lifetime p (map (@Invoke _ unit) cs)) = 3.
Proof.
  intros p cs.
  assert (Hp : truthy (initialState p) = true) by reflexivity.
  destruct (truthy_initialState_adoptions p cs Hp) as (_ & Hd & Ha).
  split; [ exact Hp | split; [ exact Hd | exact Ha ] ].
Defined.

(** The inverse law in the other order, after two pushes and two undos. *)
Lemma redo_then_undo_restores_witness :
  let p := Build_IUndoableProps (Some defaultState) in
  let cs := [CallPushState (Some (counter 1)) (@None unit);
             CallPushState (Some (counter 2)) None;
             CallUndo unit; CallUndo unit] in
  nextState (this_state (lifetime p (map (@Invoke _ unit) cs))) <> [] /\
  handle (handle (lifetime p (map (@Invoke _ unit) cs)) (Invoke (CallRedo unit)))
         (Invoke (CallUndo unit))
  = lifetime p (map (@Invoke _ unit) cs).
Proof.
  intros p cs.
  assert (Hne : nextState (this_state (lifetime p (map (@Invoke _ unit) cs))) <> [])
    by (vm_compute; discriminate).
  split; [ exact Hne | ].
  exact (redo_then_undo_restores p cs Hne).
Defined.

(** The second call of each row. *)
Lemma nth_undo_redo_returns_witness :
  let st := {| currentState := Some (counter 2);
               previousState := [Some (counter 0); Some (counter 1)];
               nextState := [Some (counter 4); Some (counter 3)] |} in
  1 < length (previousState st) /\
  returned (undo unit (undos unit 1 st)) = Some (counter 0) /\
  1 < length (nextState st) /\
  returned (redo unit (redos unit 1 st)) = Some (counter 4).
Proof.
  intros st.
  assert (Hp : 1 < length (previousState st)) by (cbn; lia).
  assert (Hf : 1 < length (nextState st)) by (cbn; lia).
  destruct (nth_undo_redo_returns unit 1 st) as [Hundo Hredo].
  split; [ exact Hp | ].
  split; [ exact (Hundo Hp) | ].
  split; [ exact Hf | exact (Hredo Hf) ].
Defined.
